(** * Door motor controller (motor.cpp, KL25Z)

    A shallow embedding of the driver in [src/motor.cpp]: the global
    variables and the [DigitalOut] pins become one record, every [void]
    function of the source becomes a function from state to state, and the
    interrupt handlers and the body of the [while(true)] loop become the
    events of a transition system.

    Representation choices.
    - A [DigitalOut] pin is the integer last written to it ([0] or [1]).
    - A [float] is the rational number it denotes.  The timers only ever
      hold multiples of one half between 0 and 10 (lemma
      [reachable_timers_dyadic]); on these binary32 subtraction is exact,
      so rational arithmetic computes what the hardware computes.
    - [TorqueSensor.read()] is an input of the program: the value returned
      by [get_motor_current] is an argument of [check_torque_sensor]; the
      binary32 rounding inside [get_motor_current] is not modelled.  A
      reading is a finite number (the converter delivers a value between
      0 and 1), so [>=] on floats is the order of the rationals.
    - An interrupt handler runs between two turns of the main loop, not
      inside one.
    - The lines written to [cout] are not part of the state. *)

From Stdlib Require Import ZArith QArith Bool List Lia Lqa.
Import ListNotations.

Local Open Scope Z_scope.

(** ** Constants ([#define]s of the source) *)

(** [0.1f]: the binary32 number nearest to one tenth, 13421773 / 2^27. *)
Definition MOTOR_CURRENT_LIMIT : Q := 13421773 # 134217728.
Definition CYCLE_TIME : Q := 1 # 2.
Definition DOOR_FALL_TIME : Q := 10 # 1.
Definition DOOR_RISE_TIME : Q := 10 # 1.

Definition RED : Z := 0.
Definition GREEN : Z := 1.
Definition BLUE : Z := 2.

(** ** State: the global variables and the output pins *)

Record DoorState : Type := mkDoorState {
  timer_up_en : bool;
  timer_down_en : bool;
  timer_down_value : Q;
  timer_up_value : Q;
  door_is_up : bool;
  OutputMotorUp : Z;
  OutputMotorDown : Z;
  RED_LED : Z;
  GREEN_LED : Z;
  BLUE_LED : Z
}.

(** Assignments to one global, the others kept. *)
Definition set_timer_up_en (b : bool) (s : DoorState) : DoorState :=
  mkDoorState b (timer_down_en s) (timer_down_value s) (timer_up_value s)
    (door_is_up s) (OutputMotorUp s) (OutputMotorDown s)
    (RED_LED s) (GREEN_LED s) (BLUE_LED s).

Definition set_timer_down_en (b : bool) (s : DoorState) : DoorState :=
  mkDoorState (timer_up_en s) b (timer_down_value s) (timer_up_value s)
    (door_is_up s) (OutputMotorUp s) (OutputMotorDown s)
    (RED_LED s) (GREEN_LED s) (BLUE_LED s).

Definition set_timer_down_value (v : Q) (s : DoorState) : DoorState :=
  mkDoorState (timer_up_en s) (timer_down_en s) v (timer_up_value s)
    (door_is_up s) (OutputMotorUp s) (OutputMotorDown s)
    (RED_LED s) (GREEN_LED s) (BLUE_LED s).

Definition set_timer_up_value (v : Q) (s : DoorState) : DoorState :=
  mkDoorState (timer_up_en s) (timer_down_en s) (timer_down_value s) v
    (door_is_up s) (OutputMotorUp s) (OutputMotorDown s)
    (RED_LED s) (GREEN_LED s) (BLUE_LED s).

Definition set_door_is_up (b : bool) (s : DoorState) : DoorState :=
  mkDoorState (timer_up_en s) (timer_down_en s) (timer_down_value s)
    (timer_up_value s) b (OutputMotorUp s) (OutputMotorDown s)
    (RED_LED s) (GREEN_LED s) (BLUE_LED s).

Definition set_OutputMotorUp (v : Z) (s : DoorState) : DoorState :=
  mkDoorState (timer_up_en s) (timer_down_en s) (timer_down_value s)
    (timer_up_value s) (door_is_up s) v (OutputMotorDown s)
    (RED_LED s) (GREEN_LED s) (BLUE_LED s).

Definition set_OutputMotorDown (v : Z) (s : DoorState) : DoorState :=
  mkDoorState (timer_up_en s) (timer_down_en s) (timer_down_value s)
    (timer_up_value s) (door_is_up s) (OutputMotorUp s) v
    (RED_LED s) (GREEN_LED s) (BLUE_LED s).

Definition set_RED_LED (v : Z) (s : DoorState) : DoorState :=
  mkDoorState (timer_up_en s) (timer_down_en s) (timer_down_value s)
    (timer_up_value s) (door_is_up s) (OutputMotorUp s) (OutputMotorDown s)
    v (GREEN_LED s) (BLUE_LED s).

Definition set_GREEN_LED (v : Z) (s : DoorState) : DoorState :=
  mkDoorState (timer_up_en s) (timer_down_en s) (timer_down_value s)
    (timer_up_value s) (door_is_up s) (OutputMotorUp s) (OutputMotorDown s)
    (RED_LED s) v (BLUE_LED s).

Definition set_BLUE_LED (v : Z) (s : DoorState) : DoorState :=
  mkDoorState (timer_up_en s) (timer_down_en s) (timer_down_value s)
    (timer_up_value s) (door_is_up s) (OutputMotorUp s) (OutputMotorDown s)
    (RED_LED s) (GREEN_LED s) v.

(** ** The functions of the source *)

(** [light_LED]: all three LEDs off (the LED logic is inverted, 1 is off),
    then the [switch] turns the selected one on; no [default] case. *)
Definition light_LED (LED : Z) (s : DoorState) : DoorState :=
  let s := set_RED_LED 1 s in
  let s := set_GREEN_LED 1 s in
  let s := set_BLUE_LED 1 s in
  if LED =? RED then set_RED_LED 0 s
  else if LED =? GREEN then set_GREEN_LED 0 s
  else if LED =? BLUE then set_BLUE_LED 0 s
  else s.

(** [iterate_and_check_timer]: the up timer is served first, the down
    timer only in the [else] branch. *)
Definition iterate_and_check_timer (s : DoorState) : DoorState :=
  if timer_up_en s then
    let s := set_timer_up_value (timer_up_value s - CYCLE_TIME)%Q s in
    if Qle_bool (timer_up_value s) 0 then
      let s := light_LED RED s in
      let s := set_timer_up_en false s in
      let s := set_timer_up_value DOOR_RISE_TIME s in
      let s := set_OutputMotorUp 0 s in
      set_door_is_up true s
    else s
  else if timer_down_en s then
    let s := set_timer_down_value (timer_down_value s - CYCLE_TIME)%Q s in
    if Qle_bool (timer_down_value s) 0 then
      let s := light_LED RED s in
      let s := set_timer_down_en false s in
      let s := set_timer_down_value DOOR_FALL_TIME s in
      let s := set_OutputMotorDown 0 s in
      set_door_is_up false s
    else s
  else s.

(** [pressure_detected]: handler of the falling edge of the pressure pad. *)
Definition pressure_detected (s : DoorState) : DoorState :=
  if negb (door_is_up s) && negb (timer_up_en s) then
    let s := set_OutputMotorUp 1 s in
    let s := set_timer_up_en true s in
    light_LED GREEN s
  else s.

(** [pressure_relieved]: handler of the rising edge of the pressure pad. *)
Definition pressure_relieved (s : DoorState) : DoorState :=
  if door_is_up s && negb (timer_down_en s) then
    let s := set_OutputMotorDown 1 s in
    let s := set_timer_down_en true s in
    light_LED BLUE s
  else s.

(** [check_torque_sensor]; [motor_current] is what [get_motor_current()]
    returned in this cycle. *)
Definition check_torque_sensor (motor_current : Q) (s : DoorState)
  : DoorState :=
  if Qle_bool MOTOR_CURRENT_LIMIT motor_current then
    let s := set_OutputMotorUp 0 s in
    let s := set_OutputMotorDown 0 s in
    light_LED RED s
  else s.

(** One turn of the [while(true)] loop of [main]: the torque check, then
    the timers (the two [cout] lines and the wait change nothing). *)
Definition loop_body (motor_current : Q) (s : DoorState) : DoorState :=
  iterate_and_check_timer (check_torque_sensor motor_current s).

(** The globals as initialised, the motor pins at the level a [DigitalOut]
    starts with, and the LEDs as [main] leaves them before the loop. *)
Definition initial_state : DoorState :=
  {| timer_up_en := false;
     timer_down_en := false;
     timer_down_value := DOOR_FALL_TIME;
     timer_up_value := DOOR_RISE_TIME;
     door_is_up := false;
     OutputMotorUp := 0;
     OutputMotorDown := 0;
     RED_LED := 1;
     GREEN_LED := 1;
     BLUE_LED := 1 |}.

(** ** The transition system *)

(** What can happen: the two interrupts registered by [attachInterrupts],
    and one turn of the main loop with the current it measured. *)
Inductive Event : Type :=
  | PressureDetected
  | PressureRelieved
  | Tick (motor_current : Q).

Definition step (s : DoorState) (e : Event) : DoorState :=
  match e with
  | PressureDetected => pressure_detected s
  | PressureRelieved => pressure_relieved s
  | Tick c => loop_body c s
  end.

(** The state after a sequence of events, oldest first. *)
Definition run (evs : list Event) (s : DoorState) : DoorState :=
  fold_left step evs s.

Definition reachable (s : DoorState) : Prop :=
  exists evs, s = run evs initial_state.

(** [ticks cs s]: consecutive turns of the loop with the currents [cs],
    no interrupt in between. *)
Definition ticks (cs : list Q) (s : DoorState) : DoorState :=
  run (map Tick cs) s.

(** ** The invariant of the reachable states *)

Record inv (s : DoorState) : Prop := mkInv {
  inv_up_position : timer_up_en s = true -> door_is_up s = false;
  inv_down_position : timer_down_en s = true -> door_is_up s = true;
  inv_motor_up :
    OutputMotorUp s = 0 \/ (OutputMotorUp s = 1 /\ timer_up_en s = true);
  inv_motor_down :
    OutputMotorDown s = 0 \/ (OutputMotorDown s = 1 /\ timer_down_en s = true);
  inv_up_rewound : timer_up_en s = false -> timer_up_value s = DOOR_RISE_TIME;
  inv_down_rewound :
    timer_down_en s = false -> timer_down_value s = DOOR_FALL_TIME;
  inv_up_dyadic : exists k, 0 < k <= 20 /\ (timer_up_value s == k # 2)%Q;
  inv_down_dyadic : exists k, 0 < k <= 20 /\ (timer_down_value s == k # 2)%Q
}.

(** The LED pins that are on (level 0) among red, green and blue. *)
Definition leds_on (s : DoorState) : list Z :=
  filter (Z.eqb 0) [RED_LED s; GREEN_LED s; BLUE_LED s].

(** ** The rest of [main]: wiring of the interrupts, start-up, the loop *)

(** The two edges of the pressure pad input [PressureButton0]. *)
Inductive PadEdge : Type :=
  | Fall
  | Rise.

(** [attachInterrupts]: the falling edge calls [pressure_detected], the
    rising edge calls [pressure_relieved]. *)
Definition attachInterrupts (e : PadEdge) : DoorState -> DoorState :=
  match e with
  | Fall => pressure_detected
  | Rise => pressure_relieved
  end.

(** [wait(t)]: the main program does nothing; the handlers of the pad
    edges that arrive in the meantime run, in order of arrival. *)
Definition wait (edges : list PadEdge) (s : DoorState) : DoorState :=
  fold_left (fun s e => attachInterrupts e s) edges s.

(** [!pin] of C++, assigned back to a pin. *)
Definition logical_not (v : Z) : Z := if v =? 0 then 1 else 0.

(** The part of [main] before the loop, after [attachInterrupts()]: LEDs
    off, then the blue LED is toggled, [wait(1.0)], toggled again.
    [blink] are the pad edges that arrive during that wait. *)
Definition main_startup (blink : list PadEdge) (s : DoorState) : DoorState :=
  let s := set_RED_LED 1 s in
  let s := set_GREEN_LED 1 s in
  let s := set_BLUE_LED 1 s in
  let s := set_BLUE_LED (logical_not (BLUE_LED s)) s in
  let s := wait blink s in
  set_BLUE_LED (logical_not (BLUE_LED s)) s.

(** The state when [main] is entered: the globals as initialised and every
    [DigitalOut] at 0. *)
Definition power_on_state : DoorState :=
  {| timer_up_en := false;
     timer_down_en := false;
     timer_down_value := DOOR_FALL_TIME;
     timer_up_value := DOOR_RISE_TIME;
     door_is_up := false;
     OutputMotorUp := 0;
     OutputMotorDown := 0;
     RED_LED := 0;
     GREEN_LED := 0;
     BLUE_LED := 0 |}.

(** Finitely many turns of [while(true)]: each turn is the loop body with
    the current it measured, then [wait(CYCLE_TIME)] with the pad edges
    that arrived in it. *)
Definition main_loop (cycles : list (Q * list PadEdge)) (s : DoorState)
  : DoorState :=
  fold_left (fun s cy => wait (snd cy) (loop_body (fst cy) s)) cycles s.

(** [main] up to the end of the given turns of the loop. *)
Definition main (blink : list PadEdge) (cycles : list (Q * list PadEdge))
  : DoorState :=
  main_loop cycles (main_startup blink power_on_state).

(** ** Further vocabulary for the statements *)

(** The currents measured by the loop cycles of an event sequence. *)
Fixpoint currents (evs : list Event) : list Q :=
  match evs with
  | [] => []
  | Tick c :: evs => c :: currents evs
  | _ :: evs => currents evs
  end.

(** The LEDs show what the motor does. *)
Record led_inv (s : DoorState) : Prop := mkLedInv {
  led_green : GREEN_LED s = 0 <-> OutputMotorUp s = 1;
  led_blue : BLUE_LED s = 0 <-> OutputMotorDown s = 1;
  led_red_range : RED_LED s = 0 \/ RED_LED s = 1;
  led_green_range : GREEN_LED s = 0 \/ GREEN_LED s = 1;
  led_blue_range : BLUE_LED s = 0 \/ BLUE_LED s = 1;
  led_one : (length (leds_on s) <= 1)%nat
}.

(** No timer enabled and no motor on. *)
Definition at_rest (s : DoorState) : Prop :=
  timer_up_en s = false /\ timer_down_en s = false /\
  OutputMotorUp s = 0 /\ OutputMotorDown s = 0.

(** * Proofs *)

Ltac split_state s :=
  destruct s as [ue de dv uv du mu md r g b].

(** ** Rational arithmetic of one timer step *)

Lemma Qle_bool_false (x y : Q) : Qle_bool x y = false <-> (y < x)%Q.
Proof.
  split.
  - intros E. apply Qnot_le_lt. intro H. apply Qle_bool_iff in H. congruence.
  - intros H. destruct (Qle_bool x y) eqn:E; [|reflexivity].
    apply Qle_bool_iff in E. exfalso. exact (Qlt_not_le _ _ H E).
Qed.

Lemma dyadic_pred (v : Q) (k : Z) :
  (v == k # 2)%Q -> 0 < k <= 20 -> Qle_bool (v - CYCLE_TIME) 0 = false ->
  0 < k - 1 <= 20 /\ (v - CYCLE_TIME == (k - 1) # 2)%Q.
Proof.
  intros Hv Hk Hle.
  assert (Heq : (v - CYCLE_TIME == (k - 1) # 2)%Q).
  { rewrite Hv. unfold CYCLE_TIME, Qeq, Qminus, Qplus, Qopp. simpl. lia. }
  split; [|exact Heq].
  apply Qle_bool_false in Hle. rewrite Heq in Hle.
  unfold Qlt in Hle. simpl in Hle. lia.
Qed.

(** ** Every function of the driver preserves the invariant *)

Lemma inv_initial_state : inv initial_state.
Proof.
  constructor; simpl; auto; try discriminate;
    exists 20; (split; [lia | reflexivity]).
Qed.

Lemma inv_pressure_detected s : inv s -> inv (pressure_detected s).
Proof.
  split_state s. intros [H1 H2 H3 H4 H5 H6 H7 H8]. simpl in *.
  unfold pressure_detected; simpl.
  destruct du, ue; simpl; constructor; simpl; auto;
    try discriminate; try tauto.
Qed.

Lemma inv_pressure_relieved s : inv s -> inv (pressure_relieved s).
Proof.
  split_state s. intros [H1 H2 H3 H4 H5 H6 H7 H8]. simpl in *.
  unfold pressure_relieved; simpl.
  destruct du, de; simpl; constructor; simpl; auto;
    try discriminate; try tauto.
Qed.

Lemma inv_check_torque_sensor c s : inv s -> inv (check_torque_sensor c s).
Proof.
  split_state s. intros [H1 H2 H3 H4 H5 H6 H7 H8]. simpl in *.
  unfold check_torque_sensor.
  destruct (Qle_bool MOTOR_CURRENT_LIMIT c); simpl; constructor; simpl; auto.
Qed.

Lemma inv_iterate_and_check_timer s :
  inv s -> inv (iterate_and_check_timer s).
Proof.
  split_state s. intros [H1 H2 H3 H4 H5 H6 H7 H8]. simpl in *.
  unfold iterate_and_check_timer; simpl.
  destruct ue; simpl.
  - destruct (Qle_bool (uv - CYCLE_TIME) 0) eqn:E; simpl;
      constructor; simpl; auto; try discriminate; try tauto.
    + exists 20; split; [lia | reflexivity].
    + destruct H7 as [k [Hk Hv]].
      destruct (dyadic_pred _ _ Hv Hk E) as [Hk' Hv'].
      exists (k - 1). split; [lia | exact Hv'].
  - destruct de; simpl; [|constructor; simpl; auto].
    destruct (Qle_bool (dv - CYCLE_TIME) 0) eqn:E; simpl;
      constructor; simpl; auto; try discriminate; try tauto.
    + exists 20; split; [lia | reflexivity].
    + destruct H8 as [k [Hk Hv]].
      destruct (dyadic_pred _ _ Hv Hk E) as [Hk' Hv'].
      exists (k - 1). split; [lia | exact Hv'].
Qed.

Lemma inv_step s e : inv s -> inv (step s e).
Proof.
  intros H. destruct e as [| |c]; simpl.
  - now apply inv_pressure_detected.
  - now apply inv_pressure_relieved.
  - unfold loop_body.
    now apply inv_iterate_and_check_timer, inv_check_torque_sensor.
Qed.

Lemma inv_run evs : forall s, inv s -> inv (run evs s).
Proof.
  unfold run. induction evs as [|e evs IH]; intros s H; simpl.
  - exact H.
  - apply IH, inv_step, H.
Qed.

Lemma inv_reachable s : reachable s -> inv s.
Proof.
  intros [evs ->]. apply inv_run, inv_initial_state.
Qed.

(** The timers of a reachable state hold a positive multiple of one half
    that is at most ten: values on which binary32 subtraction of 0.5 is
    exact. *)
Lemma reachable_timers_dyadic evs :
  let s := run evs initial_state in
  (exists k, 0 < k <= 20 /\ (timer_up_value s == k # 2)%Q) /\
  (exists k, 0 < k <= 20 /\ (timer_down_value s == k # 2)%Q).
Proof.
  intros s. destruct (inv_run evs _ inv_initial_state) as [_ _ _ _ _ _ Hu Hd].
  split; assumption.
Qed.

(** ** What each function leaves alone *)

(** The timer pass never switches a motor on. *)
Lemma iterate_and_check_timer_motors_off s :
  (OutputMotorUp s = 0 -> OutputMotorUp (iterate_and_check_timer s) = 0) /\
  (OutputMotorDown s = 0 -> OutputMotorDown (iterate_and_check_timer s) = 0).
Proof.
  split_state s. unfold iterate_and_check_timer; simpl.
  destruct ue; [destruct (Qle_bool (uv - CYCLE_TIME) 0)|destruct de;
    [destruct (Qle_bool (dv - CYCLE_TIME) 0)|]]; simpl; auto.
Qed.

(** The torque check writes neither a timer nor the position. *)
Lemma check_torque_sensor_frame c s :
  timer_up_en (check_torque_sensor c s) = timer_up_en s /\
  timer_down_en (check_torque_sensor c s) = timer_down_en s /\
  timer_up_value (check_torque_sensor c s) = timer_up_value s /\
  timer_down_value (check_torque_sensor c s) = timer_down_value s /\
  door_is_up (check_torque_sensor c s) = door_is_up s.
Proof.
  unfold check_torque_sensor.
  destruct (Qle_bool MOTOR_CURRENT_LIMIT c); simpl; auto.
Qed.

Lemma check_torque_sensor_overload c s :
  (MOTOR_CURRENT_LIMIT <= c)%Q ->
  OutputMotorUp (check_torque_sensor c s) = 0 /\
  OutputMotorDown (check_torque_sensor c s) = 0 /\
  RED_LED (check_torque_sensor c s) = 0 /\
  GREEN_LED (check_torque_sensor c s) = 1 /\
  BLUE_LED (check_torque_sensor c s) = 1.
Proof.
  intros H. apply Qle_bool_iff in H.
  unfold check_torque_sensor. rewrite H. simpl. auto.
Qed.

Lemma loop_body_overload c s :
  (MOTOR_CURRENT_LIMIT <= c)%Q ->
  OutputMotorUp (loop_body c s) = 0 /\ OutputMotorDown (loop_body c s) = 0.
Proof.
  intros H. unfold loop_body.
  destruct (check_torque_sensor_overload c s H) as (Hu & Hd & _).
  destruct (iterate_and_check_timer_motors_off (check_torque_sensor c s))
    as [Ku Kd].
  split; auto.
Qed.

(** ** The two outcomes of the timer pass *)

Lemma iterate_up_running s :
  timer_up_en s = true -> (CYCLE_TIME < timer_up_value s)%Q ->
  iterate_and_check_timer s
  = set_timer_up_value (timer_up_value s - CYCLE_TIME)%Q s.
Proof.
  intros He Hv. unfold iterate_and_check_timer. rewrite He. simpl.
  replace (Qle_bool (timer_up_value s - CYCLE_TIME) 0) with false;
    [reflexivity|].
  symmetry. apply Qle_bool_false. lra.
Qed.

Lemma iterate_down_running s :
  timer_up_en s = false -> timer_down_en s = true ->
  (CYCLE_TIME < timer_down_value s)%Q ->
  iterate_and_check_timer s
  = set_timer_down_value (timer_down_value s - CYCLE_TIME)%Q s.
Proof.
  intros Hu He Hv. unfold iterate_and_check_timer. rewrite Hu, He. simpl.
  replace (Qle_bool (timer_down_value s - CYCLE_TIME) 0) with false;
    [reflexivity|].
  symmetry. apply Qle_bool_false. lra.
Qed.

Lemma iterate_up_expired s :
  timer_up_en s = true -> (timer_up_value s - CYCLE_TIME <= 0)%Q ->
  let s' := iterate_and_check_timer s in
  timer_up_en s' = false /\ timer_up_value s' = DOOR_RISE_TIME /\
  OutputMotorUp s' = 0 /\ door_is_up s' = true /\
  timer_down_en s' = timer_down_en s /\
  timer_down_value s' = timer_down_value s /\
  OutputMotorDown s' = OutputMotorDown s /\
  RED_LED s' = 0 /\ GREEN_LED s' = 1 /\ BLUE_LED s' = 1.
Proof.
  intros He Hv. apply Qle_bool_iff in Hv.
  unfold iterate_and_check_timer. rewrite He. simpl. rewrite Hv. simpl.
  repeat split.
Qed.

Lemma iterate_down_expired s :
  timer_up_en s = false -> timer_down_en s = true ->
  (timer_down_value s - CYCLE_TIME <= 0)%Q ->
  let s' := iterate_and_check_timer s in
  timer_down_en s' = false /\ timer_down_value s' = DOOR_FALL_TIME /\
  OutputMotorDown s' = 0 /\ door_is_up s' = false /\
  timer_up_en s' = false /\
  timer_up_value s' = timer_up_value s /\
  OutputMotorUp s' = OutputMotorUp s /\
  RED_LED s' = 0 /\ GREEN_LED s' = 1 /\ BLUE_LED s' = 1.
Proof.
  intros Hu He Hv. apply Qle_bool_iff in Hv.
  unfold iterate_and_check_timer. rewrite Hu, He. simpl. rewrite Hv. simpl.
  repeat split. exact Hu.
Qed.

(** ** Overload *)

(** C1. Whatever the state before the cycle, a cycle of the main loop
    (torque check, then timer pass) whose measured current is at or above
    [MOTOR_CURRENT_LIMIT] ends with both motor outputs at 0. *)
Theorem overload_cycle_stops_both_motors (c : Q) (s : DoorState) :
  (MOTOR_CURRENT_LIMIT <= c)%Q ->
  OutputMotorUp (loop_body c s) = 0 /\ OutputMotorDown (loop_body c s) = 0.
Proof.
  exact (loop_body_overload c s).
Qed.

Lemma overload_cycle_stops_both_motors_witness :
  OutputMotorUp (pressure_detected initial_state) = 1 /\
  OutputMotorUp (loop_body (15 # 100) (pressure_detected initial_state)) = 0 /\
  OutputMotorDown (loop_body (15 # 100) (pressure_detected initial_state)) = 0.
Proof.
  split; [reflexivity|].
  apply (overload_cycle_stops_both_motors (15 # 100)).
  unfold Qle; simpl; lia.
Defined.

(** C2 fails on the code.  First input: the door has gone up, the pad is
    released, and the first cycle of the way down measures 0.15 A.  The
    motor is switched off, yet the down timer is still enabled, so the
    conjunction "motors off, no timer active, position kept" fails.
    Second input: the overload comes in the very cycle in which the up
    timer runs out; then no timer is active, but the position changes. *)
Lemma overload_keeps_timer_enabled :
  let s := run (PressureDetected :: map Tick (repeat (0 # 1)%Q 20)
                ++ [PressureRelieved]) initial_state in
  let s' := loop_body (15 # 100) s in
  let t := run (PressureDetected :: map Tick (repeat (0 # 1)%Q 19))
             initial_state in
  let t' := loop_body (15 # 100) t in
  (MOTOR_CURRENT_LIMIT <= 15 # 100)%Q /\
  (timer_down_en s = true /\ OutputMotorDown s = 1 /\
   timer_down_en s' = true /\
   ~ (OutputMotorUp s' = 0 /\ OutputMotorDown s' = 0 /\
      timer_up_en s' = false /\ timer_down_en s' = false /\
      door_is_up s' = door_is_up s)) /\
  (timer_up_en t = true /\ OutputMotorUp t = 1 /\
   door_is_up t = false /\ door_is_up t' = true /\
   ~ (OutputMotorUp t' = 0 /\ OutputMotorDown t' = 0 /\
      timer_up_en t' = false /\ timer_down_en t' = false /\
      door_is_up t' = door_is_up t)).
Proof.
  vm_compute. repeat split; try discriminate.
  - intros (_ & _ & _ & H & _). discriminate H.
  - intros (_ & _ & _ & _ & H). discriminate H.
Qed.

(** C2 (amended). An overload during travel ends the cycle with both
    motor outputs at 0; and when the running timer has more than one cycle
    left, the cycle changes neither timer-enable flag (the travel timer
    stays active, it is not cancelled) nor the position. *)
Theorem overload_during_travel (c : Q) (s : DoorState) :
  (MOTOR_CURRENT_LIMIT <= c)%Q ->
  timer_up_en s = true \/ timer_down_en s = true ->
  let s' := loop_body c s in
  OutputMotorUp s' = 0 /\ OutputMotorDown s' = 0 /\
  ((timer_up_en s = true -> (CYCLE_TIME < timer_up_value s)%Q) ->
   (timer_up_en s = false -> (CYCLE_TIME < timer_down_value s)%Q) ->
   timer_up_en s' = timer_up_en s /\
   timer_down_en s' = timer_down_en s /\
   door_is_up s' = door_is_up s).
Proof.
  intros Hc Hmove s'.
  destruct (loop_body_overload c s Hc) as [Hu Hd].
  split; [exact Hu|]. split; [exact Hd|].
  intros Hup Hdown. subst s'. unfold loop_body.
  destruct (check_torque_sensor_frame c s) as (E1 & E2 & E3 & E4 & E5).
  destruct (timer_up_en s) eqn:Eu.
  - rewrite iterate_up_running; simpl; rewrite ?E1, ?E2, ?E3, ?E5; auto.
  - destruct Hmove as [K|K]; [discriminate|].
    rewrite iterate_down_running; simpl; rewrite ?E1, ?E2, ?E4, ?E5; auto.
Qed.

Lemma overload_during_travel_witness :
  let s := pressure_detected initial_state in
  let s' := loop_body (15 # 100) s in
  OutputMotorUp s' = 0 /\ OutputMotorDown s' = 0 /\
  timer_up_en s' = true /\ timer_down_en s' = false /\
  door_is_up s' = false.
Proof.
  intros s s'.
  assert (Hc : (MOTOR_CURRENT_LIMIT <= 15 # 100)%Q)
    by (unfold Qle; simpl; lia).
  assert (Hm : timer_up_en s = true \/ timer_down_en s = true)
    by (left; reflexivity).
  destruct (overload_during_travel (15 # 100) s Hc Hm) as (Hu & Hd & Hk).
  destruct Hk as (K1 & K2 & K3).
  - intros _. unfold Qlt; simpl; lia.
  - intros E. discriminate E.
  - repeat split; assumption.
Defined.

(** C4 fails on the code: the door is down, the pad is pressed, and the
    torque check sees 0.15 A; the check itself writes the motor pin. *)
Lemma check_torque_sensor_writes_motor :
  let s := pressure_detected initial_state in
  OutputMotorUp s = 1 /\
  OutputMotorUp (check_torque_sensor (15 # 100) s) = 0 /\
  check_torque_sensor (15 # 100) s <> s.
Proof.
  vm_compute. repeat split. discriminate.
Qed.

(** C4 (amended). The torque check leaves both timers (enable flags and
    values) and the position unchanged, and below the threshold it leaves
    the whole state unchanged; at or above the threshold it writes 0 to
    both motor outputs itself and lights the red LED only. *)
Theorem check_torque_sensor_effect (c : Q) (s : DoorState) :
  let s' := check_torque_sensor c s in
  (timer_up_en s' = timer_up_en s /\
   timer_down_en s' = timer_down_en s /\
   timer_up_value s' = timer_up_value s /\
   timer_down_value s' = timer_down_value s /\
   door_is_up s' = door_is_up s) /\
  ((c < MOTOR_CURRENT_LIMIT)%Q -> s' = s) /\
  ((MOTOR_CURRENT_LIMIT <= c)%Q ->
   OutputMotorUp s' = 0 /\ OutputMotorDown s' = 0 /\
   RED_LED s' = 0 /\ GREEN_LED s' = 1 /\ BLUE_LED s' = 1).
Proof.
  intros s'. split; [apply check_torque_sensor_frame|]. split.
  - intros H. apply Qle_bool_false in H.
    subst s'. unfold check_torque_sensor. now rewrite H.
  - apply check_torque_sensor_overload.
Qed.

Lemma check_torque_sensor_effect_witness :
  check_torque_sensor (5 # 100) (pressure_detected initial_state)
    = pressure_detected initial_state /\
  OutputMotorUp
    (check_torque_sensor (15 # 100) (pressure_detected initial_state)) = 0.
Proof.
  split.
  - apply (proj1 (proj2 (check_torque_sensor_effect (5 # 100)
                           (pressure_detected initial_state)))).
    unfold Qlt; simpl; lia.
  - apply (proj2 (proj2 (check_torque_sensor_effect (15 # 100)
                           (pressure_detected initial_state)))).
    unfold Qle; simpl; lia.
Defined.

(** The way up takes twenty cycles of half a second: after nineteen the
    motor still runs, after the twentieth the door is recorded up. *)
Example door_opens_in_twenty_cycles :
  let before := run (PressureDetected :: map Tick (repeat (0 # 1)%Q 19))
                  initial_state in
  let after := loop_body (0 # 1) before in
  (timer_up_en before, OutputMotorUp before, door_is_up before)
    = (true, 1, false) /\
  (timer_up_en after, OutputMotorUp after, door_is_up after)
    = (false, 0, true) /\
  timer_up_value after = DOOR_RISE_TIME.
Proof. vm_compute. repeat split. Qed.

(** ** Consecutive cycles with a running timer *)

Lemma ticks_cons c cs s : ticks (c :: cs) s = ticks cs (loop_body c s).
Proof. reflexivity. Qed.

Lemma check_torque_sensor_motors_off c s :
  (OutputMotorUp s = 0 -> OutputMotorUp (check_torque_sensor c s) = 0) /\
  (OutputMotorDown s = 0 -> OutputMotorDown (check_torque_sensor c s) = 0).
Proof.
  unfold check_torque_sensor.
  destruct (Qle_bool MOTOR_CURRENT_LIMIT c); simpl; auto.
Qed.

Lemma ticks_motors_off cs : forall s,
  OutputMotorUp s = 0 -> OutputMotorDown s = 0 ->
  OutputMotorUp (ticks cs s) = 0 /\ OutputMotorDown (ticks cs s) = 0.
Proof.
  induction cs as [|c cs IH]; intros s Hu Hd; [split; assumption|].
  rewrite ticks_cons. unfold loop_body.
  apply IH.
  - now apply iterate_and_check_timer_motors_off,
      check_torque_sensor_motors_off.
  - now apply iterate_and_check_timer_motors_off,
      check_torque_sensor_motors_off.
Qed.

Lemma loop_body_up_running c s :
  timer_up_en s = true -> (CYCLE_TIME < timer_up_value s)%Q ->
  let s' := loop_body c s in
  timer_up_en s' = true /\
  timer_up_value s' = (timer_up_value s - CYCLE_TIME)%Q /\
  door_is_up s' = door_is_up s /\
  timer_down_en s' = timer_down_en s /\
  timer_down_value s' = timer_down_value s.
Proof.
  intros He Hv s'. subst s'. unfold loop_body.
  destruct (check_torque_sensor_frame c s) as (E1 & E2 & E3 & E4 & E5).
  rewrite iterate_up_running; simpl; rewrite ?E1, ?E2, ?E3, ?E4, ?E5; auto.
Qed.

Lemma loop_body_down_running c s :
  timer_up_en s = false -> timer_down_en s = true ->
  (CYCLE_TIME < timer_down_value s)%Q ->
  let s' := loop_body c s in
  timer_down_en s' = true /\
  timer_down_value s' = (timer_down_value s - CYCLE_TIME)%Q /\
  door_is_up s' = door_is_up s /\
  timer_up_en s' = false /\
  timer_up_value s' = timer_up_value s.
Proof.
  intros Hu He Hv s'. subst s'. unfold loop_body.
  destruct (check_torque_sensor_frame c s) as (E1 & E2 & E3 & E4 & E5).
  rewrite iterate_down_running; simpl; rewrite ?E1, ?E2, ?E3, ?E4, ?E5; auto.
Qed.

Lemma cycles_succ (n : nat) :
  (inject_Z (Z.of_nat (S n)) == inject_Z (Z.of_nat n) + 1)%Q.
Proof.
  rewrite Nat2Z.inj_succ. unfold Z.succ. rewrite inject_Z_plus. reflexivity.
Qed.

Lemma cycles_nonneg (n : nat) : (0 <= inject_Z (Z.of_nat n))%Q.
Proof.
  change 0%Q with (inject_Z 0). rewrite <- Zle_Qle. lia.
Qed.

(** As long as the up timer has time left for all of them, consecutive
    cycles only count that timer down, whatever currents they measure. *)
Lemma ticks_up_running cs : forall s,
  timer_up_en s = true ->
  (inject_Z (Z.of_nat (length cs)) * CYCLE_TIME < timer_up_value s)%Q ->
  let s' := ticks cs s in
  timer_up_en s' = true /\
  (timer_up_value s'
   == timer_up_value s - inject_Z (Z.of_nat (length cs)) * CYCLE_TIME)%Q /\
  door_is_up s' = door_is_up s.
Proof.
  induction cs as [|c cs IH]; intros s He Hv.
  - cbn zeta. change (ticks [] s) with s.
    change (inject_Z (Z.of_nat (@length Q []))) with 0%Q.
    repeat split; auto. ring.
  - cbn zeta. rewrite ticks_cons.
    change (length (c :: cs)) with (S (length cs)) in *.
    rewrite cycles_succ in Hv. pose proof (cycles_nonneg (length cs)) as Hn.
    unfold CYCLE_TIME in Hv.
    assert (Hc : (CYCLE_TIME < timer_up_value s)%Q)
      by (unfold CYCLE_TIME; lra).
    destruct (loop_body_up_running c s He Hc) as (F1 & F2 & F3 & _).
    destruct (IH (loop_body c s) F1) as (G1 & G2 & G3).
    + rewrite F2. unfold CYCLE_TIME. lra.
    + split; [exact G1|]. split; [|congruence].
      rewrite G2, F2, cycles_succ. ring.
Qed.

Lemma ticks_down_running cs : forall s,
  timer_up_en s = false -> timer_down_en s = true ->
  (inject_Z (Z.of_nat (length cs)) * CYCLE_TIME < timer_down_value s)%Q ->
  let s' := ticks cs s in
  timer_up_en s' = false /\ timer_down_en s' = true /\
  (timer_down_value s'
   == timer_down_value s - inject_Z (Z.of_nat (length cs)) * CYCLE_TIME)%Q /\
  door_is_up s' = door_is_up s.
Proof.
  induction cs as [|c cs IH]; intros s Hu He Hv.
  - cbn zeta. change (ticks [] s) with s.
    change (inject_Z (Z.of_nat (@length Q []))) with 0%Q.
    repeat split; auto. ring.
  - cbn zeta. rewrite ticks_cons.
    change (length (c :: cs)) with (S (length cs)) in *.
    rewrite cycles_succ in Hv. pose proof (cycles_nonneg (length cs)) as Hn.
    unfold CYCLE_TIME in Hv.
    assert (Hc : (CYCLE_TIME < timer_down_value s)%Q)
      by (unfold CYCLE_TIME; lra).
    destruct (loop_body_down_running c s Hu He Hc) as (F1 & F2 & F3 & F4 & _).
    destruct (IH (loop_body c s) F4 F1) as (G0 & G1 & G2 & G3).
    + rewrite F2. unfold CYCLE_TIME. lra.
    + split; [exact G0|]. split; [exact G1|]. split; [|congruence].
      rewrite G2, F2, cycles_succ. ring.
Qed.

Lemma loop_body_up_expired c s :
  timer_up_en s = true -> (timer_up_value s - CYCLE_TIME <= 0)%Q ->
  let s' := loop_body c s in
  timer_up_en s' = false /\ timer_up_value s' = DOOR_RISE_TIME /\
  OutputMotorUp s' = 0 /\ door_is_up s' = true /\
  timer_down_en s' = timer_down_en s.
Proof.
  intros He Hv s'. subst s'. unfold loop_body.
  destruct (check_torque_sensor_frame c s) as (E1 & E2 & E3 & E4 & E5).
  destruct (iterate_up_expired (check_torque_sensor c s))
    as (F1 & F2 & F3 & F4 & F5 & _).
  - congruence.
  - now rewrite E3.
  - repeat split; congruence.
Qed.

Lemma loop_body_down_expired c s :
  timer_up_en s = false -> timer_down_en s = true ->
  (timer_down_value s - CYCLE_TIME <= 0)%Q ->
  let s' := loop_body c s in
  timer_down_en s' = false /\ timer_down_value s' = DOOR_FALL_TIME /\
  OutputMotorDown s' = 0 /\ door_is_up s' = false /\
  timer_up_en s' = false.
Proof.
  intros Hu He Hv s'. subst s'. unfold loop_body.
  destruct (check_torque_sensor_frame c s) as (E1 & E2 & E3 & E4 & E5).
  destruct (iterate_down_expired (check_torque_sensor c s))
    as (F1 & F2 & F3 & F4 & F5 & _).
  - congruence.
  - congruence.
  - now rewrite E4.
  - repeat split; congruence.
Qed.

(** C9. On overload the torque check keeps both timer-enable flags, both
    timer values and the position.  So when an overloaded cycle [c] falls
    in a travel, the timer goes on counting through that cycle and the
    cycles [cs] after it, with both motors off, and the cycle [c'] in
    which it runs out still records the target of the travel as the
    position: up for the up timer, down for the down timer. *)
Theorem overload_does_not_cancel_timer
    (c : Q) (cs : list Q) (c' : Q) (s : DoorState) :
  (MOTOR_CURRENT_LIMIT <= c)%Q ->
  let k := inject_Z (Z.of_nat (length (c :: cs))) in
  let s0 := check_torque_sensor c s in
  let s1 := ticks (c :: cs) s in
  let s2 := loop_body c' s1 in
  (timer_up_en s0 = timer_up_en s /\
   timer_down_en s0 = timer_down_en s /\
   timer_up_value s0 = timer_up_value s /\
   timer_down_value s0 = timer_down_value s /\
   door_is_up s0 = door_is_up s) /\
  (timer_up_en s = true ->
   (k * CYCLE_TIME < timer_up_value s)%Q ->
   (timer_up_value s <= (k + 1) * CYCLE_TIME)%Q ->
   timer_up_en s1 = true /\ door_is_up s1 = door_is_up s /\
   (timer_up_value s1 == timer_up_value s - k * CYCLE_TIME)%Q /\
   OutputMotorUp s1 = 0 /\ OutputMotorDown s1 = 0 /\
   timer_up_en s2 = false /\ door_is_up s2 = true) /\
  (timer_up_en s = false -> timer_down_en s = true ->
   (k * CYCLE_TIME < timer_down_value s)%Q ->
   (timer_down_value s <= (k + 1) * CYCLE_TIME)%Q ->
   timer_down_en s1 = true /\ door_is_up s1 = door_is_up s /\
   (timer_down_value s1 == timer_down_value s - k * CYCLE_TIME)%Q /\
   OutputMotorUp s1 = 0 /\ OutputMotorDown s1 = 0 /\
   timer_down_en s2 = false /\ door_is_up s2 = false).
Proof.
  intros Hc k s0 s1 s2.
  assert (Hoff : OutputMotorUp s1 = 0 /\ OutputMotorDown s1 = 0).
  { subst s1. rewrite ticks_cons.
    destruct (loop_body_overload c s Hc) as [Hu Hd].
    now apply ticks_motors_off. }
  destruct Hoff as [Hu Hd].
  split; [apply check_torque_sensor_frame|]. split.
  - intros He Hlt Hle.
    destruct (ticks_up_running (c :: cs) s He Hlt) as (G1 & G2 & G3).
    fold s1 k in G1, G2, G3.
    destruct (loop_body_up_expired c' s1 G1) as (F1 & _ & _ & F4 & _).
    { rewrite G2. unfold CYCLE_TIME in *. lra. }
    fold s2 in F1, F4. repeat split; assumption.
  - intros Hn He Hlt Hle.
    destruct (ticks_down_running (c :: cs) s Hn He Hlt) as (G0 & G1 & G2 & G3).
    fold s1 k in G0, G1, G2, G3.
    destruct (loop_body_down_expired c' s1 G0 G1) as (F1 & _ & _ & F4 & _).
    { rewrite G2. unfold CYCLE_TIME in *. lra. }
    fold s2 in F1, F4. repeat split; assumption.
Qed.

Lemma overload_does_not_cancel_timer_witness :
  let s := pressure_detected initial_state in
  let s1 := ticks ((15 # 100)%Q :: repeat (0 # 1)%Q 18) s in
  door_is_up s = false /\
  timer_up_en s1 = true /\ OutputMotorUp s1 = 0 /\
  door_is_up (loop_body (0 # 1) s1) = true.
Proof.
  intros s s1.
  assert (Hc : (MOTOR_CURRENT_LIMIT <= 15 # 100)%Q)
    by (unfold Qle; simpl; lia).
  destruct (overload_does_not_cancel_timer
              (15 # 100) (repeat (0 # 1)%Q 18) (0 # 1) s Hc)
    as (_ & Hup & _).
  destruct Hup as (H1 & _ & _ & H4 & _ & _ & H7).
  - reflexivity.
  - vm_compute. reflexivity.
  - vm_compute. discriminate.
  - repeat split; assumption.
Defined.

(** ** Invariants of the reachable states *)

(** C3. After any sequence of pad-pressed interrupts, pad-released
    interrupts and loop cycles from the initial state, the two motor
    outputs are not both on: one of them is at 0. *)
Theorem motors_never_both_on (evs : list Event) :
  let s := run evs initial_state in
  (OutputMotorUp s = 0 \/ OutputMotorDown s = 0) /\
  ~ (OutputMotorUp s <> 0 /\ OutputMotorDown s <> 0).
Proof.
  intros s.
  destruct (inv_run evs _ inv_initial_state) as [H1 H2 H3 H4 _ _ _ _].
  fold s in H1, H2, H3, H4.
  assert (K : OutputMotorUp s = 0 \/ OutputMotorDown s = 0).
  { destruct H3 as [H3|[_ Hu]]; [now left|].
    destruct H4 as [H4|[_ Hd]]; [now right|].
    specialize (H1 Hu). specialize (H2 Hd). congruence. }
  split; [exact K|]. intros [Nu Nd]. destruct K; contradiction.
Qed.

(** C5. In every reachable state an enabled up timer (moving up) means
    the door is not recorded up, and an enabled down timer (moving down)
    means it is recorded up; and whenever [pressure_detected] starts the
    up motion, the door is not recorded up, before and after the call. *)
Theorem motion_agrees_with_position (evs : list Event) :
  let s := run evs initial_state in
  (timer_up_en s = true -> door_is_up s = false) /\
  (timer_down_en s = true -> door_is_up s = true) /\
  (timer_up_en s = false -> timer_up_en (pressure_detected s) = true ->
   door_is_up s = false /\ door_is_up (pressure_detected s) = false).
Proof.
  intros s.
  destruct (inv_run evs _ inv_initial_state) as [H1 H2 _ _ _ _ _ _].
  fold s in H1, H2.
  split; [exact H1|]. split; [exact H2|].
  unfold pressure_detected.
  destruct (door_is_up s) eqn:Ed; destruct (timer_up_en s) eqn:Eu; simpl;
    intros; try congruence; auto.
Qed.

Lemma motion_agrees_with_position_witness :
  door_is_up (run [PressureDetected; Tick (0 # 1)] initial_state) = false /\
  door_is_up
    (run (PressureDetected :: map Tick (repeat (0 # 1)%Q 20)
          ++ [PressureRelieved]) initial_state) = true /\
  door_is_up (pressure_detected (run [] initial_state)) = false.
Proof.
  split; [|split].
  - apply (proj1 (motion_agrees_with_position
                    [PressureDetected; Tick (0 # 1)])).
    reflexivity.
  - apply (proj1 (proj2 (motion_agrees_with_position
                    (PressureDetected :: map Tick (repeat (0 # 1)%Q 20)
                     ++ [PressureRelieved])))).
    vm_compute. reflexivity.
  - apply (proj2 (proj2 (motion_agrees_with_position []))); reflexivity.
Defined.

(** C6. In every reachable state at most one of the two travel timers is
    enabled. *)
Theorem at_most_one_timer_enabled (evs : list Event) :
  let s := run evs initial_state in
  timer_up_en s && timer_down_en s = false.
Proof.
  intros s.
  destruct (inv_run evs _ inv_initial_state) as [H1 H2 _ _ _ _ _ _].
  fold s in H1, H2.
  destruct (timer_up_en s); [|reflexivity].
  destruct (timer_down_en s); [|reflexivity].
  specialize (H1 eq_refl). specialize (H2 eq_refl). congruence.
Qed.

(** C7. Take any reachable state, run the torque check of a cycle, and
    let [s] be the state the timer pass starts from.  The pass leaves no
    timer negative.  If the enabled timer comes to zero or below, the same
    pass switches that direction's motor off, leaves no timer enabled,
    records the target position (up for the up timer, down for the down
    timer) and puts the timer back to its full duration.  A timer that is
    not enabled after the pass holds its full duration, so the next motion
    starts from it. *)
Theorem timer_pass_expiry (evs : list Event) (c : Q) :
  let s := check_torque_sensor c (run evs initial_state) in
  let s' := iterate_and_check_timer s in
  ((0 <= timer_up_value s')%Q /\ (0 <= timer_down_value s')%Q) /\
  (timer_up_en s = true -> (timer_up_value s - CYCLE_TIME <= 0)%Q ->
   OutputMotorUp s' = 0 /\
   timer_up_en s' = false /\ timer_down_en s' = false /\
   door_is_up s' = true /\ timer_up_value s' = DOOR_RISE_TIME) /\
  (timer_down_en s = true -> (timer_down_value s - CYCLE_TIME <= 0)%Q ->
   OutputMotorDown s' = 0 /\
   timer_up_en s' = false /\ timer_down_en s' = false /\
   door_is_up s' = false /\ timer_down_value s' = DOOR_FALL_TIME) /\
  (timer_up_en s' = false -> timer_up_value s' = DOOR_RISE_TIME) /\
  (timer_down_en s' = false -> timer_down_value s' = DOOR_FALL_TIME).
Proof.
  intros s s'.
  assert (I : inv s)
    by (apply inv_check_torque_sensor, inv_run, inv_initial_state).
  assert (I' : inv s') by (apply inv_iterate_and_check_timer, I).
  destruct I as [H1 H2 _ _ _ _ _ _].
  destruct I' as [_ _ _ _ R1 R2 [ku [Hku Eu]] [kd [Hkd Ed]]].
  split; [|split; [|split; [|split]]].
  - rewrite Eu, Ed. unfold Qle; simpl. lia.
  - intros He Hv.
    destruct (iterate_up_expired s He Hv) as (F1 & F2 & F3 & F4 & F5 & _).
    fold s' in F1, F2, F3, F4, F5.
    repeat split; try assumption.
    rewrite F5. destruct (timer_down_en s); [|reflexivity].
    specialize (H1 He). specialize (H2 eq_refl). congruence.
  - intros He Hv.
    assert (Hu : timer_up_en s = false).
    { destruct (timer_up_en s); [|reflexivity].
      specialize (H1 eq_refl). specialize (H2 He). congruence. }
    destruct (iterate_down_expired s Hu He Hv) as (F1 & F2 & F3 & F4 & F5 & _).
    fold s' in F1, F2, F3, F4, F5.
    repeat split; assumption.
  - exact R1.
  - exact R2.
Qed.

Lemma timer_pass_expiry_witness :
  let up := PressureDetected :: map Tick (repeat (0 # 1)%Q 19) in
  let down := PressureDetected :: map Tick (repeat (0 # 1)%Q 20)
              ++ PressureRelieved :: map Tick (repeat (0 # 1)%Q 19) in
  let s := check_torque_sensor (0 # 1) (run up initial_state) in
  let t := check_torque_sensor (0 # 1) (run down initial_state) in
  (OutputMotorUp s = 1 /\
   OutputMotorUp (iterate_and_check_timer s) = 0 /\
   door_is_up (iterate_and_check_timer s) = true /\
   timer_up_value (iterate_and_check_timer s) = DOOR_RISE_TIME) /\
  (OutputMotorDown t = 1 /\
   OutputMotorDown (iterate_and_check_timer t) = 0 /\
   door_is_up (iterate_and_check_timer t) = false /\
   timer_down_value (iterate_and_check_timer t) = DOOR_FALL_TIME).
Proof.
  intros up down s t. split.
  - split; [vm_compute; reflexivity|].
    destruct (timer_pass_expiry up (0 # 1)) as (_ & Hup & _).
    destruct Hup as (H1 & _ & _ & H4 & H5).
    + vm_compute. reflexivity.
    + vm_compute. discriminate.
    + repeat split; assumption.
  - split; [vm_compute; reflexivity|].
    destruct (timer_pass_expiry down (0 # 1)) as (_ & _ & Hdown & _).
    destruct Hdown as (H1 & _ & _ & H4 & H5).
    + vm_compute. reflexivity.
    + vm_compute. discriminate.
    + repeat split; assumption.
Defined.

(** ** The interrupt handlers and the LED *)

(** C8. Two calls of [pressure_detected] in a row leave the state that one
    call leaves; and a call while the up timer is enabled changes nothing:
    timer value, enable flags, motor outputs and position stay as they
    were. *)
Theorem pressure_detected_idempotent (s : DoorState) :
  pressure_detected (pressure_detected s) = pressure_detected s /\
  (timer_up_en s = true -> pressure_detected s = s).
Proof.
  split.
  - split_state s. unfold pressure_detected; simpl.
    destruct du, ue; reflexivity.
  - intros He. unfold pressure_detected. rewrite He.
    now rewrite andb_false_r.
Qed.

Lemma pressure_detected_idempotent_witness :
  let s := loop_body (0 # 1) (pressure_detected initial_state) in
  timer_up_value s = (DOOR_RISE_TIME - CYCLE_TIME)%Q /\
  pressure_detected s = s.
Proof.
  intros s. split; [reflexivity|].
  apply (proj2 (pressure_detected_idempotent s)).
  reflexivity.
Defined.

(** C10. After [light_LED] the red, green and blue pins are 0 exactly for
    the argument 0, 1 and 2 respectively and 1 otherwise: at most one LED
    is on, and for an argument outside 0, 1, 2 none is. *)
Theorem light_LED_at_most_one (LED : Z) (s : DoorState) :
  let s' := light_LED LED s in
  RED_LED s' = (if LED =? 0 then 0 else 1) /\
  GREEN_LED s' = (if LED =? 1 then 0 else 1) /\
  BLUE_LED s' = (if LED =? 2 then 0 else 1) /\
  (length (leds_on s') <= 1)%nat /\
  (LED <> 0 -> LED <> 1 -> LED <> 2 -> leds_on s' = []).
Proof.
  intros s'. subst s'. unfold light_LED, leds_on, RED, GREEN, BLUE.
  destruct (Z.eqb_spec LED 0) as [->|N0]; simpl.
  { repeat split; auto. intros K; now elim K. }
  destruct (Z.eqb_spec LED 1) as [->|N1]; simpl.
  { repeat split; auto. intros _ K; now elim K. }
  destruct (Z.eqb_spec LED 2) as [->|N2]; simpl.
  { repeat split; auto. intros _ _ K; now elim K. }
  repeat split; auto.
Qed.

Lemma light_LED_at_most_one_witness :
  leds_on (light_LED 3 (light_LED GREEN initial_state)) = [] /\
  leds_on (light_LED (-1) initial_state) = [].
Proof.
  split.
  - apply (proj2 (proj2 (proj2 (proj2
             (light_LED_at_most_one 3 (light_LED GREEN initial_state))))));
      lia.
  - apply (proj2 (proj2 (proj2 (proj2
             (light_LED_at_most_one (-1) initial_state))))); lia.
Defined.

(** * Further properties of the driver *)

(** ** The pad handlers *)

(** [pressure_relieved] twice in a row is [pressure_relieved] once, and it
    changes nothing while the down timer is enabled or while the door is
    not recorded up. *)
Theorem pressure_relieved_idempotent (s : DoorState) :
  pressure_relieved (pressure_relieved s) = pressure_relieved s /\
  (timer_down_en s = true -> pressure_relieved s = s) /\
  (door_is_up s = false -> pressure_relieved s = s).
Proof.
  split; [|split].
  - split_state s. unfold pressure_relieved; simpl.
    destruct du, de; reflexivity.
  - intros He. unfold pressure_relieved. rewrite He.
    now rewrite andb_false_r.
  - intros Hd. unfold pressure_relieved. now rewrite Hd.
Qed.

Lemma pressure_relieved_idempotent_witness :
  let s := pressure_detected initial_state in
  OutputMotorUp (pressure_relieved s) = 1 /\ pressure_relieved s = s.
Proof.
  intros s.
  assert (E : pressure_relieved s = s).
  { apply (proj2 (proj2 (pressure_relieved_idempotent s))). reflexivity. }
  split; [rewrite E; reflexivity | exact E].
Defined.

(** In every state at most one of the two handlers does anything, and
    neither writes the position the other one tests: a press and a release
    give the same state in either order. *)
Theorem pad_handlers_commute (s : DoorState) :
  pressure_relieved (pressure_detected s)
  = pressure_detected (pressure_relieved s) /\
  (pressure_detected s = s \/ pressure_relieved s = s).
Proof.
  split_state s. unfold pressure_relieved, pressure_detected; simpl.
  destruct du, ue, de; simpl; auto.
Qed.

(** No reversal in mid-travel.  In a reachable state with the up timer
    enabled a release of the pad changes nothing, and with the down timer
    enabled a press changes nothing (a press while going up and a release
    while going down change nothing either): until the timer runs out
    the pad is ignored. *)
Theorem pad_ignored_during_travel (evs : list Event) :
  let s := run evs initial_state in
  (timer_up_en s = true ->
   pressure_relieved s = s /\ pressure_detected s = s) /\
  (timer_down_en s = true ->
   pressure_detected s = s /\ pressure_relieved s = s).
Proof.
  intros s.
  destruct (inv_run evs _ inv_initial_state) as [H1 H2 _ _ _ _ _ _].
  fold s in H1, H2.
  split; intros He; unfold pressure_relieved, pressure_detected.
  - rewrite (H1 He), He. split; reflexivity.
  - rewrite (H2 He), He. split; reflexivity.
Qed.

Lemma pad_ignored_during_travel_witness :
  let s := run [PressureDetected; Tick (0 # 1)] initial_state in
  timer_up_en s = true /\ pressure_relieved s = s /\ pressure_detected s = s.
Proof.
  intros s. split; [reflexivity|].
  apply (proj1 (pad_ignored_during_travel [PressureDetected; Tick (0 # 1)])).
  reflexivity.
Defined.

(** ** Position and motors *)

(** The recorded position changes only in a loop cycle in which an enabled
    timer is switched off, and then to that timer's target. *)
Theorem position_changes_only_on_expiry (s : DoorState) (e : Event) :
  door_is_up (step s e) <> door_is_up s ->
  (exists c, e = Tick c) /\
  ((timer_up_en s = true /\ timer_up_en (step s e) = false /\
    door_is_up (step s e) = true) \/
   (timer_up_en s = false /\
    timer_down_en s = true /\ timer_down_en (step s e) = false /\
    door_is_up (step s e) = false)).
Proof.
  destruct e as [| |c]; simpl.
  - intros H. exfalso. apply H.
    unfold pressure_detected.
    destruct (negb (door_is_up s) && negb (timer_up_en s)); reflexivity.
  - intros H. exfalso. apply H.
    unfold pressure_relieved.
    destruct (door_is_up s && negb (timer_down_en s)); reflexivity.
  - intros H. split; [now exists c|]. revert H.
    unfold loop_body.
    destruct (check_torque_sensor_frame c s) as (E1 & E2 & E3 & E4 & E5).
    rewrite <- E1, <- E2, <- E5.
    generalize (check_torque_sensor c s). clear. intros t.
    split_state t. unfold iterate_and_check_timer; simpl.
    destruct ue; simpl.
    + destruct (Qle_bool (uv - CYCLE_TIME) 0); simpl; intros H;
        [left; auto | now elim H].
    + destruct de; simpl; [|intros H; now elim H].
      destruct (Qle_bool (dv - CYCLE_TIME) 0); simpl; intros H;
        [right; auto | now elim H].
Qed.

Lemma position_changes_only_on_expiry_witness :
  let s := run (PressureDetected :: map Tick (repeat (0 # 1)%Q 19))
             initial_state in
  timer_up_en s = true /\ timer_up_en (step s (Tick (0 # 1))) = false /\
  door_is_up (step s (Tick (0 # 1))) = true.
Proof.
  intros s.
  destruct (position_changes_only_on_expiry s (Tick (0 # 1))) as [_ [H|H]].
  - vm_compute. discriminate.
  - exact H.
  - destruct H as (H & _). vm_compute in H. discriminate H.
Defined.

(** In every reachable state a motor pin holds 0 or 1, and it holds 1 only
    while the timer of its direction is enabled. *)
Theorem motor_on_only_while_timer_enabled (evs : list Event) :
  let s := run evs initial_state in
  (OutputMotorUp s = 0 \/ OutputMotorUp s = 1 /\ timer_up_en s = true) /\
  (OutputMotorDown s = 0 \/
   OutputMotorDown s = 1 /\ timer_down_en s = true).
Proof.
  intros s.
  destruct (inv_run evs _ inv_initial_state) as [_ _ H3 H4 _ _ _ _].
  split; assumption.
Qed.

(** ** The LED *)

(** [light_LED] writes nothing but the three LED pins, and a second call
    overrides the first whatever the two arguments are. *)
Theorem light_LED_last_call_wins (LED1 LED2 : Z) (s : DoorState) :
  light_LED LED2 (light_LED LED1 s) = light_LED LED2 s /\
  light_LED LED2 s
  = set_BLUE_LED (BLUE_LED (light_LED LED2 s))
      (set_GREEN_LED (GREEN_LED (light_LED LED2 s))
         (set_RED_LED (RED_LED (light_LED LED2 s)) s)).
Proof.
  split_state s. unfold light_LED, RED, GREEN, BLUE.
  destruct (LED2 =? 0), (LED2 =? 1), (LED2 =? 2),
    (LED1 =? 0), (LED1 =? 1), (LED1 =? 2); split; reflexivity.
Qed.

(** ** A whole travel, with the pad and the current doing anything *)

Lemma run_cons e evs s : run (e :: evs) s = run evs (step s e).
Proof. reflexivity. Qed.

Lemma cycles_le (n m : nat) :
  (n <= m)%nat -> (inject_Z (Z.of_nat n) <= inject_Z (Z.of_nat m))%Q.
Proof.
  intros H. rewrite <- Zle_Qle. lia.
Qed.

(** While the up timer has time left for all the cycles of [evs], the pad
    events in [evs] do nothing: only the cycles count. *)
Lemma run_going_up evs : forall s,
  timer_up_en s = true -> door_is_up s = false ->
  (inject_Z (Z.of_nat (length (currents evs))) * CYCLE_TIME
   < timer_up_value s)%Q ->
  run evs s = ticks (currents evs) s.
Proof.
  induction evs as [|e evs IH]; intros s He Hd Hv; [reflexivity|].
  rewrite run_cons. destruct e as [| |c]; simpl step; simpl currents.
  - replace (pressure_detected s) with s; [now apply IH|].
    unfold pressure_detected. now rewrite He, andb_false_r.
  - replace (pressure_relieved s) with s; [now apply IH|].
    unfold pressure_relieved. now rewrite Hd.
  - rewrite ticks_cons. simpl currents in Hv.
    change (length (c :: currents evs)) with (S (length (currents evs))) in Hv.
    rewrite cycles_succ in Hv.
    pose proof (cycles_nonneg (length (currents evs))) as Hn.
    unfold CYCLE_TIME in Hv.
    assert (Hc : (CYCLE_TIME < timer_up_value s)%Q)
      by (unfold CYCLE_TIME; lra).
    destruct (loop_body_up_running c s He Hc) as (F1 & F2 & F3 & _).
    apply IH; [exact F1 | congruence |].
    rewrite F2. unfold CYCLE_TIME. lra.
Qed.

Lemma run_going_down evs : forall s,
  timer_up_en s = false -> timer_down_en s = true -> door_is_up s = true ->
  (inject_Z (Z.of_nat (length (currents evs))) * CYCLE_TIME
   < timer_down_value s)%Q ->
  run evs s = ticks (currents evs) s.
Proof.
  induction evs as [|e evs IH]; intros s Hu He Hd Hv; [reflexivity|].
  rewrite run_cons. destruct e as [| |c]; simpl step; simpl currents.
  - replace (pressure_detected s) with s; [now apply IH|].
    unfold pressure_detected. now rewrite Hd.
  - replace (pressure_relieved s) with s; [now apply IH|].
    unfold pressure_relieved. now rewrite He, andb_false_r.
  - rewrite ticks_cons. simpl currents in Hv.
    change (length (c :: currents evs)) with (S (length (currents evs))) in Hv.
    rewrite cycles_succ in Hv.
    pose proof (cycles_nonneg (length (currents evs))) as Hn.
    unfold CYCLE_TIME in Hv.
    assert (Hc : (CYCLE_TIME < timer_down_value s)%Q)
      by (unfold CYCLE_TIME; lra).
    destruct (loop_body_down_running c s Hu He Hc) as (F1 & F2 & F3 & F4 & _).
    apply IH; [exact F4 | exact F1 | congruence |].
    rewrite F2. unfold CYCLE_TIME. lra.
Qed.

(** The way up takes twenty loop cycles, neither more nor less.  Start
    from a reachable state with the door down and no up timer running, and
    press the pad.  Whatever the pad does and whatever currents are
    measured afterwards, up to nineteen cycles later the door is still
    travelling, and the twentieth cycle records it up and leaves no timer
    enabled and no motor on. *)
Theorem up_travel_takes_twenty_cycles (evs0 evs : list Event) (c : Q) :
  let s := run evs0 initial_state in
  door_is_up s = false -> timer_up_en s = false ->
  (length (currents evs) <= 19)%nat ->
  let s1 := run (PressureDetected :: evs) s in
  let s2 := loop_body c s1 in
  (timer_up_en s1 = true /\ door_is_up s1 = false) /\
  (length (currents evs) = 19%nat ->
   door_is_up s2 = true /\
   timer_up_en s2 = false /\ timer_down_en s2 = false /\
   OutputMotorUp s2 = 0 /\ OutputMotorDown s2 = 0).
Proof.
  intros s Hd He Hn s1 s2.
  assert (I : inv s) by apply inv_run, inv_initial_state.
  pose proof (inv_up_rewound s I He) as Hfull.
  set (p := pressure_detected s).
  assert (Pe : timer_up_en p = true)
    by (subst p; unfold pressure_detected; rewrite Hd, He; reflexivity).
  assert (Pd : door_is_up p = false)
    by (subst p; unfold pressure_detected; rewrite Hd, He; exact Hd).
  assert (Pv : timer_up_value p = DOOR_RISE_TIME)
    by (subst p; unfold pressure_detected; rewrite Hd, He; exact Hfull).
  pose proof (cycles_le _ _ Hn) as Hq.
  change (inject_Z (Z.of_nat 19)) with (19 # 1)%Q in Hq.
  assert (Hlt : (inject_Z (Z.of_nat (length (currents evs))) * CYCLE_TIME
                 < timer_up_value p)%Q).
  { rewrite Pv. unfold CYCLE_TIME, DOOR_RISE_TIME. lra. }
  assert (E1 : s1 = ticks (currents evs) p).
  { subst s1. rewrite run_cons. apply run_going_up; assumption. }
  destruct (ticks_up_running (currents evs) p Pe Hlt) as (G1 & G2 & G3).
  rewrite <- E1 in G1, G2, G3.
  split; [split; congruence|].
  intros H19. rewrite H19, Pv in G2.
  change (inject_Z (Z.of_nat 19)) with (19 # 1)%Q in G2.
  destruct (loop_body_up_expired c s1 G1) as (F1 & _ & F3 & F4 & F5).
  { rewrite G2. unfold CYCLE_TIME, DOOR_RISE_TIME. lra. }
  fold s2 in F1, F3, F4, F5.
  assert (I2 : inv s2).
  { subst s2 s1. unfold loop_body.
    apply inv_iterate_and_check_timer, inv_check_torque_sensor, inv_run.
    exact I. }
  assert (I1 : inv s1) by (subst s1; apply inv_run, I).
  assert (Kd : timer_down_en s2 = false).
  { rewrite F5. destruct (timer_down_en s1) eqn:K; [|reflexivity].
    pose proof (inv_down_position s1 I1 K).
    pose proof (inv_up_position s1 I1 G1). congruence. }
  repeat split; try assumption.
  destruct (inv_motor_down s2 I2) as [K|[_ K]]; [exact K | congruence].
Qed.

Lemma up_travel_takes_twenty_cycles_witness :
  let evs := repeat (Tick (0 # 1)) 10
             ++ [PressureRelieved; Tick (15 # 100); PressureDetected]
             ++ repeat (Tick (0 # 1)) 8 in
  let s1 := run (PressureDetected :: evs) (run [] initial_state) in
  timer_up_en s1 = true /\ door_is_up (loop_body (0 # 1) s1) = true.
Proof.
  intros evs s1.
  destruct (up_travel_takes_twenty_cycles [] evs (0 # 1)) as [[H1 _] H2].
  - reflexivity.
  - reflexivity.
  - simpl. lia.
  - split; [exact H1|]. apply H2. reflexivity.
Defined.

(** The way down takes twenty loop cycles as well.  Start from a reachable
    state with the door up and no down timer running, and release the pad.
    Up to nineteen cycles later the door is still travelling, whatever the
    pad does and whatever currents are measured, and the twentieth cycle
    records it down and leaves no timer enabled and no motor on. *)
Theorem down_travel_takes_twenty_cycles (evs0 evs : list Event) (c : Q) :
  let s := run evs0 initial_state in
  door_is_up s = true -> timer_down_en s = false ->
  (length (currents evs) <= 19)%nat ->
  let s1 := run (PressureRelieved :: evs) s in
  let s2 := loop_body c s1 in
  (timer_down_en s1 = true /\ door_is_up s1 = true) /\
  (length (currents evs) = 19%nat ->
   door_is_up s2 = false /\
   timer_up_en s2 = false /\ timer_down_en s2 = false /\
   OutputMotorUp s2 = 0 /\ OutputMotorDown s2 = 0).
Proof.
  intros s Hd He Hn s1 s2.
  assert (I : inv s) by apply inv_run, inv_initial_state.
  pose proof (inv_down_rewound s I He) as Hfull.
  assert (Hu : timer_up_en s = false).
  { destruct (timer_up_en s) eqn:K; [|reflexivity].
    pose proof (inv_up_position s I K). congruence. }
  set (p := pressure_relieved s).
  assert (Pu : timer_up_en p = false)
    by (subst p; unfold pressure_relieved; rewrite Hd, He; exact Hu).
  assert (Pe : timer_down_en p = true)
    by (subst p; unfold pressure_relieved; rewrite Hd, He; reflexivity).
  assert (Pd : door_is_up p = true)
    by (subst p; unfold pressure_relieved; rewrite Hd, He; exact Hd).
  assert (Pv : timer_down_value p = DOOR_FALL_TIME)
    by (subst p; unfold pressure_relieved; rewrite Hd, He; exact Hfull).
  pose proof (cycles_le _ _ Hn) as Hq.
  change (inject_Z (Z.of_nat 19)) with (19 # 1)%Q in Hq.
  assert (Hlt : (inject_Z (Z.of_nat (length (currents evs))) * CYCLE_TIME
                 < timer_down_value p)%Q).
  { rewrite Pv. unfold CYCLE_TIME, DOOR_FALL_TIME. lra. }
  assert (E1 : s1 = ticks (currents evs) p).
  { subst s1. rewrite run_cons. apply run_going_down; assumption. }
  destruct (ticks_down_running (currents evs) p Pu Pe Hlt)
    as (G0 & G1 & G2 & G3).
  rewrite <- E1 in G0, G1, G2, G3.
  split; [split; congruence|].
  intros H19. rewrite H19, Pv in G2.
  change (inject_Z (Z.of_nat 19)) with (19 # 1)%Q in G2.
  destruct (loop_body_down_expired c s1 G0 G1) as (F1 & _ & F3 & F4 & F5).
  { rewrite G2. unfold CYCLE_TIME, DOOR_FALL_TIME. lra. }
  fold s2 in F1, F3, F4, F5.
  assert (I2 : inv s2).
  { subst s2 s1. unfold loop_body.
    apply inv_iterate_and_check_timer, inv_check_torque_sensor, inv_run.
    exact I. }
  repeat split; try assumption.
  destruct (inv_motor_up s2 I2) as [K|[_ K]]; [exact K | congruence].
Qed.

Lemma down_travel_takes_twenty_cycles_witness :
  let evs0 := PressureDetected :: repeat (Tick (0 # 1)) 20 in
  let evs := repeat (Tick (0 # 1)) 19 in
  let s1 := run (PressureRelieved :: evs) (run evs0 initial_state) in
  timer_down_en s1 = true /\ door_is_up (loop_body (0 # 1) s1) = false.
Proof.
  intros evs0 evs s1.
  destruct (down_travel_takes_twenty_cycles evs0 evs (0 # 1)) as [[H1 _] H2].
  - vm_compute. reflexivity.
  - vm_compute. reflexivity.
  - simpl. lia.
  - split; [exact H1|]. apply H2. reflexivity.
Defined.

(** A motor stopped by an overload is not switched on again by the pad.
    If a cycle measures a current at or above the limit during a travel,
    then for as long as the timer of that travel has cycles left, both
    motors stay off and the timer stays enabled, whatever pad events and
    currents follow. *)
Theorem overload_stop_not_undone_by_pad
    (c : Q) (evs : list Event) (s : DoorState) :
  (MOTOR_CURRENT_LIMIT <= c)%Q ->
  let n := inject_Z (Z.of_nat (length (currents (Tick c :: evs)))) in
  let s' := run (Tick c :: evs) s in
  (timer_up_en s = true -> door_is_up s = false ->
   (n * CYCLE_TIME < timer_up_value s)%Q ->
   OutputMotorUp s' = 0 /\ OutputMotorDown s' = 0 /\
   timer_up_en s' = true /\ door_is_up s' = false) /\
  (timer_up_en s = false -> timer_down_en s = true -> door_is_up s = true ->
   (n * CYCLE_TIME < timer_down_value s)%Q ->
   OutputMotorUp s' = 0 /\ OutputMotorDown s' = 0 /\
   timer_down_en s' = true /\ door_is_up s' = true).
Proof.
  intros Hc n s'.
  assert (Hoff : forall t, t = ticks (currents (Tick c :: evs)) s ->
                 OutputMotorUp t = 0 /\ OutputMotorDown t = 0).
  { intros t ->. simpl currents. rewrite ticks_cons.
    destruct (loop_body_overload c s Hc) as [Hu Hd].
    now apply ticks_motors_off. }
  split.
  - intros He Hd Hv.
    pose proof (run_going_up (Tick c :: evs) s He Hd Hv) as E. fold s' in E.
    destruct (Hoff s' E) as [Mu Md].
    destruct (ticks_up_running _ s He Hv) as (G1 & _ & G3).
    rewrite <- E in G1, G3. repeat split; congruence.
  - intros Hu He Hd Hv.
    pose proof (run_going_down (Tick c :: evs) s Hu He Hd Hv) as E.
    fold s' in E.
    destruct (Hoff s' E) as [Mu Md].
    destruct (ticks_down_running _ s Hu He Hv) as (_ & G1 & _ & G3).
    rewrite <- E in G1, G3. repeat split; congruence.
Qed.

Lemma overload_stop_not_undone_by_pad_witness :
  let s := pressure_detected initial_state in
  let s' := run [Tick (15 # 100); PressureDetected; Tick (0 # 1);
                 PressureRelieved; PressureDetected] s in
  OutputMotorUp s = 1 /\ OutputMotorUp s' = 0 /\ timer_up_en s' = true.
Proof.
  intros s s'. split; [reflexivity|].
  assert (Hc : (MOTOR_CURRENT_LIMIT <= 15 # 100)%Q)
    by (unfold Qle; simpl; lia).
  destruct (overload_stop_not_undone_by_pad (15 # 100)
              [PressureDetected; Tick (0 # 1);
               PressureRelieved; PressureDetected] s Hc) as [H _].
  destruct H as (H1 & _ & H3 & _).
  - reflexivity.
  - reflexivity.
  - vm_compute. reflexivity.
  - split; assumption.
Defined.

(** ** No travel outlasts twenty cycles *)

Lemma loop_body_disabled c s :
  timer_up_en s = false -> timer_down_en s = false ->
  timer_up_en (loop_body c s) = false /\
  timer_down_en (loop_body c s) = false.
Proof.
  intros Hu Hd. unfold loop_body.
  destruct (check_torque_sensor_frame c s) as (E1 & E2 & _).
  unfold iterate_and_check_timer. rewrite E1, E2, Hu, Hd. split; congruence.
Qed.

(** With [n] cycles ahead and no pad event, a state that satisfies the
    invariant and whose enabled timer holds at most [n] cycles comes to
    rest. *)
Lemma ticks_come_to_rest cs : forall s,
  inv s ->
  (timer_up_en s = true ->
   (timer_up_value s <= inject_Z (Z.of_nat (length cs)) * CYCLE_TIME)%Q) ->
  (timer_down_en s = true ->
   (timer_down_value s <= inject_Z (Z.of_nat (length cs)) * CYCLE_TIME)%Q) ->
  at_rest (ticks cs s).
Proof.
  induction cs as [|c cs IH]; intros s I Hup Hdown.
  - change (ticks [] s) with s.
    change (inject_Z (Z.of_nat (@length Q []))) with 0%Q in *.
    destruct (inv_up_dyadic s I) as [ku [Hku Eu]].
    destruct (inv_down_dyadic s I) as [kd [Hkd Ed]].
    assert (Ku : timer_up_en s = false).
    { destruct (timer_up_en s); [|reflexivity]. specialize (Hup eq_refl).
      rewrite Eu in Hup. unfold Qle in Hup. simpl in Hup. lia. }
    assert (Kd : timer_down_en s = false).
    { destruct (timer_down_en s); [|reflexivity]. specialize (Hdown eq_refl).
      rewrite Ed in Hdown. unfold Qle in Hdown. simpl in Hdown. lia. }
    repeat split; try assumption.
    + destruct (inv_motor_up s I) as [K|[_ K]]; [exact K | congruence].
    + destruct (inv_motor_down s I) as [K|[_ K]]; [exact K | congruence].
  - rewrite ticks_cons.
    change (length (c :: cs)) with (S (length cs)) in *.
    rewrite cycles_succ in *.
    assert (I' : inv (loop_body c s)).
    { unfold loop_body.
      now apply inv_iterate_and_check_timer, inv_check_torque_sensor. }
    destruct (timer_up_en s) eqn:Eu.
    + assert (Ed : timer_down_en s = false).
      { destruct (timer_down_en s) eqn:K; [|reflexivity].
        pose proof (inv_up_position s I Eu).
        pose proof (inv_down_position s I K). congruence. }
      specialize (Hup eq_refl).
      destruct (Qlt_le_dec CYCLE_TIME (timer_up_value s)) as [Hrun|Hexp].
      * destruct (loop_body_up_running c s Eu Hrun) as (F1 & F2 & _ & F4 & _).
        apply IH; [exact I'| |congruence].
        intros _. rewrite F2. unfold CYCLE_TIME in *. lra.
      * destruct (loop_body_up_expired c s Eu) as (F1 & _ & _ & _ & F5).
        { unfold CYCLE_TIME in *. lra. }
        apply IH; [exact I'| |]; congruence.
    + destruct (timer_down_en s) eqn:Ed.
      * specialize (Hdown eq_refl).
        destruct (Qlt_le_dec CYCLE_TIME (timer_down_value s)) as [Hrun|Hexp].
        -- destruct (loop_body_down_running c s Eu Ed Hrun)
             as (F1 & F2 & _ & F4 & _).
           apply IH; [exact I'|congruence|].
           intros _. rewrite F2. unfold CYCLE_TIME in *. lra.
        -- destruct (loop_body_down_expired c s Eu Ed)
             as (F1 & _ & _ & _ & F5).
           { unfold CYCLE_TIME in *. lra. }
           apply IH; [exact I'| |]; congruence.
      * destruct (loop_body_disabled c s Eu Ed) as [F1 F2].
        apply IH; [exact I'| |]; congruence.
Qed.

(** Twenty loop cycles in a row without a pad event bring the door to
    rest from any reachable state, whatever currents are measured: no
    timer is enabled any more and both motors are off.  A motor therefore
    never runs for more than twenty cycles (ten seconds) on one pad
    event. *)
Theorem at_rest_after_twenty_quiet_cycles
    (evs : list Event) (cs : list Q) :
  (20 <= length cs)%nat ->
  let s' := ticks cs (run evs initial_state) in
  timer_up_en s' = false /\ timer_down_en s' = false /\
  OutputMotorUp s' = 0 /\ OutputMotorDown s' = 0.
Proof.
  intros Hn s'.
  assert (I : inv (run evs initial_state)) by apply inv_run, inv_initial_state.
  pose proof (cycles_le _ _ Hn) as Hq.
  change (inject_Z (Z.of_nat 20)) with (20 # 1)%Q in Hq.
  destruct (inv_up_dyadic _ I) as [ku [Hku Eu]].
  destruct (inv_down_dyadic _ I) as [kd [Hkd Ed]].
  assert (Bu : (timer_up_value (run evs initial_state) <= 10)%Q).
  { rewrite Eu. unfold Qle. simpl. lia. }
  assert (Bd : (timer_down_value (run evs initial_state) <= 10)%Q).
  { rewrite Ed. unfold Qle. simpl. lia. }
  apply (ticks_come_to_rest cs _ I); intros _; unfold CYCLE_TIME; lra.
Qed.

Lemma at_rest_after_twenty_quiet_cycles_witness :
  let s := run [PressureDetected; Tick (0 # 1)] initial_state in
  OutputMotorUp s = 1 /\
  OutputMotorUp (ticks (repeat (0 # 1)%Q 20) s) = 0 /\
  timer_up_en (ticks (repeat (0 # 1)%Q 20) s) = false.
Proof.
  intros s. split; [reflexivity|].
  destruct (at_rest_after_twenty_quiet_cycles
              [PressureDetected; Tick (0 # 1)] (repeat (0 # 1)%Q 20))
    as (H1 & _ & H3 & _).
  - simpl. lia.
  - split; assumption.
Defined.

(** ** The LEDs as an indicator *)

Lemma led_inv_initial_state : led_inv initial_state.
Proof.
  constructor; simpl; auto; split; discriminate.
Qed.

Ltac led_cases :=
  constructor; simpl; auto;
  try (split; intros; try reflexivity; try discriminate; try lia).

(** [led_inv] reads only the motor pins and the LED pins. *)
Ltac led_same L := destruct L; constructor; simpl in *; assumption.

Lemma led_inv_pressure_detected s :
  inv s -> led_inv s -> led_inv (pressure_detected s).
Proof.
  split_state s. intros [H1 H2 H3 H4 _ _ _ _] L. simpl in *.
  unfold pressure_detected; simpl.
  destruct du; simpl; [exact L|]. destruct ue; simpl; [exact L|].
  destruct H4 as [->|[_ K]]; [|specialize (H2 K); discriminate].
  led_cases.
Qed.

Lemma led_inv_pressure_relieved s :
  inv s -> led_inv s -> led_inv (pressure_relieved s).
Proof.
  split_state s. intros [H1 H2 H3 H4 _ _ _ _] L. simpl in *.
  unfold pressure_relieved; simpl.
  destruct du; simpl; [|exact L]. destruct de; simpl; [exact L|].
  destruct H3 as [->|[_ K]]; [|specialize (H1 K); discriminate].
  led_cases.
Qed.

Lemma led_inv_check_torque_sensor c s :
  led_inv s -> led_inv (check_torque_sensor c s).
Proof.
  split_state s. intros L. unfold check_torque_sensor.
  destruct (Qle_bool MOTOR_CURRENT_LIMIT c); simpl; [|exact L].
  led_cases.
Qed.

Lemma led_inv_iterate_and_check_timer s :
  inv s -> led_inv s -> led_inv (iterate_and_check_timer s).
Proof.
  split_state s. intros [H1 H2 H3 H4 _ _ _ _] L. simpl in *.
  unfold iterate_and_check_timer; simpl.
  destruct ue; simpl.
  - destruct (Qle_bool (uv - CYCLE_TIME) 0); simpl; [|led_same L].
    destruct H4 as [->|[_ K]].
    + led_cases.
    + specialize (H1 eq_refl). specialize (H2 K). congruence.
  - destruct de; simpl; [|exact L].
    destruct (Qle_bool (dv - CYCLE_TIME) 0); simpl; [|led_same L].
    destruct H3 as [->|[_ K]]; [|discriminate].
    led_cases.
Qed.

Lemma led_inv_run evs : forall s, inv s -> led_inv s -> led_inv (run evs s).
Proof.
  induction evs as [|e evs IH]; intros s I L; [exact L|].
  rewrite run_cons. apply IH; [now apply inv_step|].
  destruct e as [| |c]; simpl.
  - now apply led_inv_pressure_detected.
  - now apply led_inv_pressure_relieved.
  - unfold loop_body. apply led_inv_iterate_and_check_timer.
    + now apply inv_check_torque_sensor.
    + now apply led_inv_check_torque_sensor.
Qed.

(** From [initial_state] (the loop entered with all LEDs off) the LEDs
    always show what the motor does: green is on exactly when the up motor
    is on, blue exactly when the down motor is on, red only when both
    motors are off, and never two LEDs at once. *)
Theorem leds_show_motor (evs : list Event) :
  let s := run evs initial_state in
  (GREEN_LED s = 0 <-> OutputMotorUp s = 1) /\
  (BLUE_LED s = 0 <-> OutputMotorDown s = 1) /\
  (RED_LED s = 0 -> OutputMotorUp s = 0 /\ OutputMotorDown s = 0) /\
  (length (leds_on s) <= 1)%nat.
Proof.
  intros s.
  assert (I : inv s) by apply inv_run, inv_initial_state.
  assert (L : led_inv s)
    by (apply led_inv_run; [apply inv_initial_state
                           | apply led_inv_initial_state]).
  destruct L as [Lg Lb _ Rg Rb L1].
  split; [exact Lg|]. split; [exact Lb|]. split; [|exact L1].
  intros Hr. unfold leds_on in L1. rewrite Hr in L1. simpl in L1. split.
  - destruct (inv_motor_up s I) as [K|[K _]]; [exact K|].
    apply Lg in K. rewrite K in L1.
    destruct (BLUE_LED s); simpl in L1; lia.
  - destruct (inv_motor_down s I) as [K|[K _]]; [exact K|].
    apply Lb in K. rewrite K in L1.
    destruct (GREEN_LED s); simpl in L1; lia.
Qed.

Lemma leds_show_motor_witness :
  let s := run [PressureDetected; Tick (15 # 100)] initial_state in
  RED_LED s = 0 /\ OutputMotorUp s = 0 /\ OutputMotorDown s = 0.
Proof.
  intros s. split; [reflexivity|].
  apply (proj1 (proj2 (proj2
    (leds_show_motor [PressureDetected; Tick (15 # 100)])))).
  reflexivity.
Defined.

(** ** Start-up and the loop of [main] *)

Lemma wait_cons e edges s :
  wait (e :: edges) s = wait edges (attachInterrupts e s).
Proof. reflexivity. Qed.

(** While the door is going up, pad edges during a wait do nothing. *)
Lemma wait_going_up edges : forall s,
  timer_up_en s = true -> door_is_up s = false -> wait edges s = s.
Proof.
  induction edges as [|e edges IH]; intros s He Hd; [reflexivity|].
  rewrite wait_cons.
  replace (attachInterrupts e s) with s; [now apply IH|].
  destruct e; simpl.
  - unfold pressure_detected. now rewrite He, andb_false_r.
  - unfold pressure_relieved. now rewrite Hd.
Qed.

Lemma wait_door_down edges : forall s,
  door_is_up s = false -> timer_up_en s = false ->
  (In Fall edges -> wait edges s = pressure_detected s) /\
  (~ In Fall edges -> wait edges s = s).
Proof.
  induction edges as [|e edges IH]; intros s Hd He.
  - split; [intros []|reflexivity].
  - rewrite wait_cons. destruct e; simpl attachInterrupts.
    + split; [intros _|intros N; elim N; now left].
      apply wait_going_up.
      * unfold pressure_detected. rewrite Hd, He. reflexivity.
      * unfold pressure_detected. rewrite Hd, He. exact Hd.
    + replace (pressure_relieved s) with s
        by (unfold pressure_relieved; now rewrite Hd).
      destruct (IH s Hd He) as [A B]. split.
      * intros [K|K]; [discriminate K | now apply A].
      * intros N. apply B. intros K. apply N. now right.
Qed.

(** What the start-up blink leaves behind.  [main] attaches the handlers
    before it blinks the blue LED, so a pad edge can arrive during the
    one-second wait of the blink.  With the door down and no up timer
    running: if no falling edge arrives, the loop is entered with all LEDs
    off and nothing else changed; if one does, the up travel has started
    and the second toggle of the blue LED turns blue on beside green, so
    two LEDs are lit when the loop is entered. *)
Theorem startup_blink_and_pad (blink : list PadEdge) (s : DoorState) :
  door_is_up s = false -> timer_up_en s = false ->
  let s' := main_startup blink s in
  (~ In Fall blink ->
   s' = set_BLUE_LED 1 (set_GREEN_LED 1 (set_RED_LED 1 s))) /\
  (In Fall blink ->
   RED_LED s' = 1 /\ GREEN_LED s' = 0 /\ BLUE_LED s' = 0 /\
   OutputMotorUp s' = 1 /\ timer_up_en s' = true /\
   leds_on s' = [0; 0]).
Proof.
  intros Hd He s'. subst s'. unfold main_startup.
  set (t := set_BLUE_LED _ (set_BLUE_LED 1 _)).
  assert (Td : door_is_up t = false) by exact Hd.
  assert (Te : timer_up_en t = false) by exact He.
  destruct (wait_door_down blink t Td Te) as [A B]. split.
  - intros N. rewrite (B N). reflexivity.
  - intros K. rewrite (A K). unfold pressure_detected.
    rewrite Td, Te. simpl. repeat split.
Qed.

Lemma startup_blink_and_pad_witness :
  main_startup [Rise] power_on_state = initial_state /\
  leds_on (main_startup [Rise; Fall; Rise] power_on_state) = [0; 0].
Proof.
  split.
  - apply (proj1 (startup_blink_and_pad [Rise] power_on_state
                    eq_refl eq_refl)).
    intros [K|[]]. discriminate K.
  - apply (proj2 (startup_blink_and_pad [Rise; Fall; Rise] power_on_state
                    eq_refl eq_refl)).
    right. left. reflexivity.
Defined.

Lemma inv_leds_irrelevant s r g b :
  inv s -> inv (set_BLUE_LED b (set_GREEN_LED g (set_RED_LED r s))).
Proof.
  intros [H1 H2 H3 H4 H5 H6 H7 H8]. constructor; simpl; assumption.
Qed.

Lemma inv_set_BLUE_LED s b : inv s -> inv (set_BLUE_LED b s).
Proof.
  intros [H1 H2 H3 H4 H5 H6 H7 H8]. constructor; simpl; assumption.
Qed.

Lemma inv_wait edges : forall s, inv s -> inv (wait edges s).
Proof.
  induction edges as [|e edges IH]; intros s I; [exact I|].
  rewrite wait_cons. apply IH. destruct e; simpl.
  - now apply inv_pressure_detected.
  - now apply inv_pressure_relieved.
Qed.

Lemma inv_power_on_state : inv power_on_state.
Proof.
  constructor; simpl; auto; try discriminate;
    exists 20; (split; [lia | reflexivity]).
Qed.

Lemma inv_main_loop cycles : forall s, inv s -> inv (main_loop cycles s).
Proof.
  unfold main_loop.
  induction cycles as [|[c edges] cycles IH]; intros s I; [exact I|].
  simpl. apply IH, inv_wait. unfold loop_body.
  now apply inv_iterate_and_check_timer, inv_check_torque_sensor.
Qed.

(** At the end of every turn of the loop of [main], whatever pad edges
    arrived during the start-up blink and during the waits and whatever
    currents were measured: the two motors are not both on, a motor is on
    only while its timer is enabled, at most one timer is enabled, and an
    enabled up (down) timer goes with a door recorded down (up). *)
Theorem main_keeps_motors_and_timers_consistent
    (blink : list PadEdge) (cycles : list (Q * list PadEdge)) :
  let s := main blink cycles in
  (OutputMotorUp s = 0 \/ OutputMotorDown s = 0) /\
  (OutputMotorUp s = 0 \/ OutputMotorUp s = 1 /\ timer_up_en s = true) /\
  (OutputMotorDown s = 0 \/
   OutputMotorDown s = 1 /\ timer_down_en s = true) /\
  timer_up_en s && timer_down_en s = false /\
  (timer_up_en s = true -> door_is_up s = false) /\
  (timer_down_en s = true -> door_is_up s = true).
Proof.
  intros s.
  assert (I : inv s).
  { subst s. unfold main. apply inv_main_loop. unfold main_startup.
    apply inv_set_BLUE_LED, inv_wait, inv_set_BLUE_LED, inv_leds_irrelevant.
    exact inv_power_on_state. }
  destruct I as [H1 H2 H3 H4 _ _ _ _].
  assert (T : timer_up_en s && timer_down_en s = false).
  { destruct (timer_up_en s); [|reflexivity].
    destruct (timer_down_en s); [|reflexivity].
    specialize (H1 eq_refl). specialize (H2 eq_refl). congruence. }
  repeat split; try assumption.
  destruct H3 as [H3|[_ Hu]]; [now left|].
  destruct H4 as [H4|[_ Hd]]; [now right|].
  rewrite Hu, Hd in T. discriminate T.
Qed.

Lemma main_keeps_motors_and_timers_consistent_witness :
  let s := main [Fall] [((0 # 1)%Q, [Rise]); ((15 # 100)%Q, [Fall])] in
  timer_up_en s = true /\ door_is_up s = false.
Proof.
  intros s. split; [reflexivity|].
  apply (proj1 (proj2 (proj2 (proj2 (proj2
    (main_keeps_motors_and_timers_consistent
       [Fall] [((0 # 1)%Q, [Rise]); ((15 # 100)%Q, [Fall])])))))).
  reflexivity.
Defined.
